(** * rest_list.py: a CRUD service over one SQLite table of messages

    The handlers of [src/rest_list.py] are embedded as functions in a small
    state-and-exception monad over a connection.  The SQL statements the
    handlers send are the constructors of [Sql]; their meaning on the table
    [messages(id INTEGER PRIMARY KEY AUTOINCREMENT, text TEXT NOT NULL)] is
    given by [Sqlite.run]. *)

From Stdlib Require Import ZArith List String Bool Lia.
Import ListNotations.

Local Open Scope Z_scope.

(** ** Data *)

(** A row of [messages], read through [sqlite3.Row]: [row["id"]] and
    [row["text"]]. *)
Record Row : Type := mkRow { row_id : Z; row_text : string }.

(** The values a response dictionary holds: a Python [int] or [str]. *)
Inductive Value : Type :=
| VInt (n : Z)
| VStr (s : string).

(** A Python [dict] with string keys, in insertion order. *)
Definition Dict : Type := list (string * Value).

(** [row_to_dict]: [{"id": row["id"], "text": row["text"]}]. *)
Definition row_to_dict (row : Row) : Dict :=
  [ ("id"%string, VInt (row_id row)); ("text"%string, VStr (row_text row)) ].

(** The exceptions a handler can leave with. *)
Inductive Exn : Type :=
| HTTPException (status_code : Z) (detail : string)
| OverflowError       (* Python int too large to convert to SQLite INTEGER *)
| OperationalError    (* database or disk is full *)
| IntegrityError      (* UNIQUE constraint failed: messages.id *)
| TypeError.          (* 'NoneType' object is not subscriptable *)

Inductive Res (A : Type) : Type :=
| Return (a : A)
| Raise (e : Exn).
Arguments Return {A} a.
Arguments Raise {A} e.

(** The six statements the handlers execute, with their bound parameters. *)
Inductive Sql : Type :=
| SELECT_all                                   (* SELECT * FROM messages; *)
| SELECT_by_id (id : Z)                        (* SELECT * FROM messages WHERE id = ?; *)
| INSERT_text (text : string)                  (* INSERT INTO messages (text) VALUES (?); *)
| INSERT_id_text (id : Z) (text : string)      (* INSERT INTO messages (id, text) VALUES (?, ?); *)
| UPDATE_text_by_id (text : string) (id : Z)   (* UPDATE messages SET text = ? WHERE id = ?; *)
| DELETE_by_id (id : Z).                       (* DELETE FROM messages WHERE id = ?; *)

(** What [conn.execute] hands back: the cursor's [rowcount], its [lastrowid]
    (meaningful after an INSERT only) and the rows left to fetch. *)
Record Cursor : Type := mkCursor {
  rowcount : Z;
  lastrowid : Z;
  pending_rows : list Row
}.

Definition fetchall (cur : Cursor) : list Row := pending_rows cur.

Definition fetchone (cur : Cursor) : option Row :=
  match pending_rows cur with
  | [] => None
  | row :: _ => Some row
  end.

(** ** The store *)

Module Sqlite.

(** The database file: the rows of [messages] in rowid order, and the
    entry of [sqlite_sequence] that AUTOINCREMENT keeps for the table
    (the largest rowid ever inserted, 0 before the first insert). *)
Record Db : Type := mkDb { messages : list Row; sqlite_sequence : Z }.

Definition empty : Db := mkDb [] 0.

(** SQLite's INTEGER is a signed 64-bit integer. *)
Definition MIN_INT : Z := - 2 ^ 63.
Definition MAX_INT : Z := 2 ^ 63 - 1.

Definition fits_int64 (n : Z) : bool := (MIN_INT <=? n) && (n <=? MAX_INT).

(** Binding a Python [int] outside that range raises [OverflowError];
    a [str] always binds. *)
Definition binds (s : Sql) : bool :=
  match s with
  | SELECT_all | INSERT_text _ => true
  | SELECT_by_id id | INSERT_id_text id _
  | UPDATE_text_by_id _ id | DELETE_by_id id => fits_int64 id
  end.

(** INSERT, UPDATE and DELETE open a transaction when none is open. *)
Definition is_dml (s : Sql) : bool :=
  match s with
  | SELECT_all | SELECT_by_id _ => false
  | _ => true
  end.

Definition has_id (id : Z) (row : Row) : bool := row_id row =? id.

Definition set_text (text : string) (id : Z) (row : Row) : Row :=
  if has_id id row then mkRow (row_id row) text else row.

(** The table is a rowid b-tree: a new row goes before the first row with
    a larger id. *)
Fixpoint insert_row (new : Row) (rows : list Row) : list Row :=
  match rows with
  | [] => [new]
  | row :: rest =>
      if row_id new <? row_id row then new :: rows
      else row :: insert_row new rest
  end.

(** The largest rowid in the table, [None] when it is empty. *)
Definition max_rowid (rows : list Row) : option Z :=
  match rows with
  | [] => None
  | row :: rest => Some (fold_left Z.max (map row_id rest) (row_id row))
  end.

(** The rowid AUTOINCREMENT gives the next row: one more than the largest
    rowid the table has ever held; none once [MAX_INT] has been used. *)
Definition next_rowid (db : Db) : option Z :=
  let in_table := max_rowid (messages db) in
  if (sqlite_sequence db =? MAX_INT)
     || match in_table with Some m => m =? MAX_INT | None => false end
  then None
  else Some (Z.max (match in_table with Some m => m + 1 | None => 1 end)
                   (sqlite_sequence db + 1)).

Definition count_id (id : Z) (rows : list Row) : Z :=
  Z.of_nat (List.length (filter (has_id id) rows)).

(** One statement on one database state. *)
Definition run (s : Sql) (db : Db) : Res (Cursor * Db) :=
  if negb (binds s) then Raise OverflowError
  else
    match s with
    | SELECT_all =>
        Return (mkCursor (-1) 0 (messages db), db)
    | SELECT_by_id id =>
        Return (mkCursor (-1) 0 (filter (has_id id) (messages db)), db)
    | INSERT_text text =>
        match next_rowid db with
        | None => Raise OperationalError
        | Some id =>
            Return (mkCursor 1 id [],
                    mkDb (insert_row (mkRow id text) (messages db)) id)
        end
    | INSERT_id_text id text =>
        if existsb (has_id id) (messages db) then Raise IntegrityError
        else
          Return (mkCursor 1 id [],
                  mkDb (insert_row (mkRow id text) (messages db))
                       (Z.max (sqlite_sequence db) id))
    | UPDATE_text_by_id text id =>
        Return (mkCursor (count_id id (messages db)) 0 [],
                mkDb (map (set_text text id) (messages db))
                     (sqlite_sequence db))
    | DELETE_by_id id =>
        Return (mkCursor (count_id id (messages db)) 0 [],
                mkDb (filter (fun row => negb (has_id id row)) (messages db))
                     (sqlite_sequence db))
    end.

End Sqlite.

Import Sqlite.

(** ** Connections and the handler monad *)

(** A [sqlite3.Connection]: the file as committed, and the state of the open
    transaction when there is one.  The file is shared with the connections
    of the other requests: [others] lists what they commit to it, one write
    for each statement this connection starts outside a transaction; a
    request served alone meets none. *)
Record Connection : Type := mkConn {
  db_file : Db;
  txn : option Db;
  others : list (Db -> Db)
}.

(** What the connection reads: its own uncommitted writes included. *)
Definition view (conn : Connection) : Db :=
  match txn conn with
  | Some db => db
  | None => db_file conn
  end.

(** [sqlite3.connect(DB_NAME)], for a request served alone. *)
Definition connect (file : Db) : Connection := mkConn file None [].

(** The same, while other requests write to the file. *)
Definition connect_amid (writes : list (Db -> Db)) (file : Db) : Connection :=
  mkConn file None writes.

(** [conn.close()]: an open transaction is discarded. *)
Definition close (conn : Connection) : Db := db_file conn.

Definition Handler (A : Type) : Type := Connection -> Res A * Connection.

Definition ret {A} (a : A) : Handler A := fun conn => (Return a, conn).

Definition raise {A} (e : Exn) : Handler A := fun conn => (Raise e, conn).

Definition bind {A B} (m : Handler A) (k : A -> Handler B) : Handler B :=
  fun conn =>
    match m conn with
    | (Return a, conn') => k a conn'
    | (Raise e, conn') => (Raise e, conn')
    end.

Notation "x <- m ;; k" := (bind m (fun x => k))
  (at level 61, m at next level, right associativity).
Notation "m ;;; k" := (bind m (fun _ => k))
  (at level 61, right associativity).

(** Outside a transaction the connection holds no lock: what another
    connection has committed meanwhile is in the file before the next
    statement runs.  Inside a transaction the file is locked for it. *)
Definition meet_others (conn : Connection) : Connection :=
  match txn conn, others conn with
  | None, write :: rest => mkConn (write (db_file conn)) None rest
  | _, _ => conn
  end.

(** [conn.execute(sql, params)]. *)
Definition execute (s : Sql) : Handler Cursor :=
  fun conn =>
    let conn := meet_others conn in
    let conn := if is_dml s
                then mkConn (db_file conn) (Some (view conn)) (others conn)
                else conn in
    match run s (view conn) with
    | Raise e => (Raise e, conn)
    | Return (cur, db) =>
        (Return cur,
         if is_dml s then mkConn (db_file conn) (Some db) (others conn)
         else conn)
    end.

(** [conn.commit()]. *)
Definition commit : Handler unit :=
  fun conn => (Return tt, mkConn (view conn) None (others conn)).

(** [conn.rollback()]. *)
Definition rollback : Handler unit :=
  fun conn => (Return tt, mkConn (db_file conn) None (others conn)).

(** [get_conn]: a connection per request, closed on every way out. *)
Definition get_conn {A} (handler : Handler A) (file : Db) : Res A * Db :=
  let (res, conn) := handler (connect file) in (res, close conn).

(** The same, while other requests write to the file. *)
Definition get_conn_amid {A} (writes : list (Db -> Db))
    (handler : Handler A) (file : Db) : Res A * Db :=
  let (res, conn) := handler (connect_amid writes file) in (res, close conn).

(** [row_to_dict(cur.fetchone())]: subscripting [None] is a [TypeError]. *)
Definition row_to_dict_of (fetched : option Row) : Handler Dict :=
  match fetched with
  | Some row => ret (row_to_dict row)
  | None => raise TypeError
  end.

(** [init_db]: CREATE TABLE IF NOT EXISTS on the file at startup; a file
    that has the table keeps it, one that has none gets it empty. *)
Definition init_db (file : option Db) : Db :=
  match file with
  | Some db => db
  | None => empty
  end.

(** ** The handlers *)

Definition HTTP_201_CREATED : Z := 201.
Definition HTTP_204_NO_CONTENT : Z := 204.

Definition not_found {A} : Handler A :=
  raise (HTTPException 404 "Message not found").

(** The [Response] object FastAPI injects; its [status_code] is unset until
    a handler assigns it. *)
Record Response : Type := mkResponse { status_code : option Z }.

(** GET /messages *)
Definition get_messages : Handler (list Dict) :=
  cur <- execute SELECT_all ;;
  let rows := fetchall cur in
  ret (map row_to_dict rows).

(** GET /messages/{id} *)
Definition get_message (id : Z) : Handler Dict :=
  cur <- execute (SELECT_by_id id) ;;
  match fetchone cur with
  | None => not_found
  | Some row => ret (row_to_dict row)
  end.

(** POST /messages *)
Definition create_message (text : string) : Handler Dict :=
  cur <- execute (INSERT_text text) ;;
  commit ;;;
  let new_id := lastrowid cur in
  cur <- execute (SELECT_by_id new_id) ;;
  row_to_dict_of (fetchone cur).

(** PUT /messages/{id}: the dictionary returned, and the [response] object
    as the handler leaves it. *)
Definition put_message (id : Z) (text : string) (response : option Response)
  : Handler (Dict * option Response) :=
  cur <- execute (UPDATE_text_by_id text id) ;;
  response <- (if rowcount cur =? 0 then
                 execute (INSERT_id_text id text) ;;;
                 commit ;;;
                 ret (match response with
                      | Some _ => Some (mkResponse (Some HTTP_201_CREATED))
                      | None => None
                      end)
               else
                 commit ;;;
                 ret response) ;;
  cur <- execute (SELECT_by_id id) ;;
  d <- row_to_dict_of (fetchone cur) ;;
  ret (d, response).

(** PATCH /messages/{id} *)
Definition patch_message (id : Z) (text : string) : Handler Dict :=
  cur <- execute (UPDATE_text_by_id text id) ;;
  if rowcount cur =? 0 then
    rollback ;;;
    not_found
  else
    commit ;;;
    cur <- execute (SELECT_by_id id) ;;
    row_to_dict_of (fetchone cur).

(** DELETE /messages/{id} *)
Definition delete_message (id : Z) : Handler unit :=
  cur <- execute (DELETE_by_id id) ;;
  if rowcount cur =? 0 then
    rollback ;;;
    not_found
  else
    commit.

(** ** The routes *)

Inductive Body : Type :=
| NoBody
| JsonObject (d : Dict)
| JsonArray (l : list Dict)
| ValidationErrors (loc : list string)
| PlainText (s : string).

Record HttpResponse : Type := mkHttp { status : Z; body : Body }.

(** An [HTTPException] becomes its status and [{"detail": ...}]; any other
    exception is a 500. *)
Definition on_exception (e : Exn) : HttpResponse :=
  match e with
  | HTTPException code detail =>
      mkHttp code (JsonObject [("detail"%string, VStr detail)])
  | _ => mkHttp 500 (PlainText "Internal Server Error")
  end.

(** A route: the handler runs on the connection of [get_conn]; what it
    returns is rendered, what it raises goes through [on_exception]. *)
Definition route {A} (handler : Handler A) (render : A -> HttpResponse)
    (file : Db) : HttpResponse * Db :=
  match get_conn handler file with
  | (Return a, file') => (render a, file')
  | (Raise e, file') => (on_exception e, file')
  end.

(** [Query(...)]: the parameter is required; a request without it is
    answered 422 and the handler is not called. *)
Definition Query (param : option string)
    (k : string -> Db -> HttpResponse * Db) (file : Db) : HttpResponse * Db :=
  match param with
  | Some text => k text file
  | None => (mkHttp 422 (ValidationErrors ["query"; "text"]%string), file)
  end.

(** The requests of the six routes, with the path id and the query
    parameter as the framework hands them to the handler: an [int] and,
    when the query has it, a [str]. *)
Inductive Request : Type :=
| GET_messages
| GET_message (id : Z)
| POST_messages (text : option string)
| PUT_message (id : Z) (text : option string)
| PATCH_message (id : Z) (text : option string)
| DELETE_message (id : Z).

(** The status PUT answers with: the one the handler assigned, 200 when it
    assigned none. *)
Definition put_status (response : option Response) : Z :=
  match response with
  | Some (mkResponse (Some code)) => code
  | _ => 200
  end.

(** A request served alone: no other request writes to the file while its
    handler runs. *)
Definition serve (req : Request) : Db -> HttpResponse * Db :=
  match req with
  | GET_messages =>
      route get_messages (fun l => mkHttp 200 (JsonArray l))
  | GET_message id =>
      route (get_message id) (fun d => mkHttp 200 (JsonObject d))
  | POST_messages text =>
      Query text (fun text =>
        route (create_message text)
              (fun d => mkHttp HTTP_201_CREATED (JsonObject d)))
  | PUT_message id text =>
      Query text (fun text =>
        route (put_message id text (Some (mkResponse None)))
              (fun r => mkHttp (put_status (snd r)) (JsonObject (fst r))))
  | PATCH_message id text =>
      Query text (fun text =>
        route (patch_message id text) (fun d => mkHttp 200 (JsonObject d)))
  | DELETE_message id =>
      route (delete_message id) (fun _ => mkHttp HTTP_204_NO_CONTENT NoBody)
  end.

(** The response to a request, and the file it leaves. *)
Definition response_of (req : Request) (file : Db) : HttpResponse :=
  fst (serve req file).

Definition file_after (req : Request) (file : Db) : Db :=
  snd (serve req file).

(** The JSON of a message. *)
Definition Message (id : Z) (text : string) : Body :=
  JsonObject (row_to_dict (mkRow id text)).

Definition message_not_found : HttpResponse :=
  mkHttp 404 (JsonObject [("detail"%string, VStr "Message not found")]).

Definition ids (db : Db) : list Z := map row_id (messages db).

(** ** Vocabulary of the properties *)

Definition internal_server_error : HttpResponse :=
  mkHttp 500 (PlainText "Internal Server Error").

(** Unfolds a route down to the statements it runs. *)
Ltac run_handler :=
  cbv [serve response_of file_after Query route get_conn bind ret raise
       execute commit rollback not_found row_to_dict_of
       get_messages get_message create_message put_message patch_message
       delete_message run binds is_dml connect close view meet_others
       db_file txn others rowcount lastrowid fetchone fetchall pending_rows
       negb fst snd put_status on_exception].

(** The sequence is not used up: the largest rowid ever held is below
    [MAX_INT]. *)
Definition sequence_left (db : Db) : Prop :=
  0 <= sqlite_sequence db < MAX_INT
  /\ Forall (fun row => row_id row < MAX_INT) (messages db).

(** Every request leaves the file as it was, or with one row more under an
    id the table did not hold, or with the text of the rows of one id
    replaced, or without the rows of one id. *)
Inductive effect (db : Db) : Db -> Prop :=
| effect_none : effect db db
| effect_insert (id : Z) (text : string) (seq : Z) :
    ~ In id (ids db) ->
    effect db (mkDb (insert_row (mkRow id text) (messages db)) seq)
| effect_update (id : Z) (text : string) :
    effect db (mkDb (map (set_text text id) (messages db)) (sqlite_sequence db))
| effect_delete (id : Z) :
    effect db (mkDb (filter (fun row => negb (has_id id row)) (messages db))
                    (sqlite_sequence db)).

(** A table with one message, the first id SQLite cannot store, and a
    table whose only row holds the last id it can. *)
Definition hello_db : Db := mkDb [mkRow 1 "hello"] 1.
Definition too_large : Z := 2 ^ 63.
Definition full_db : Db := mkDb [mkRow MAX_INT "x"] MAX_INT.





(** The answer to a request that lacks its required [text]. *)
Definition unprocessable : HttpResponse :=
  mkHttp 422 (ValidationErrors ["query"; "text"]%string).

(** The rows after a request keep the ids of the rows before it: the same
    ids row by row, or one row added among them, or the rows of one id
    taken out. *)
Definition ids_kept (old new : list Row) : Prop :=
  map row_id new = map row_id old
  \/ (exists before after row,
        old = before ++ after /\ new = before ++ row :: after)
  \/ (exists id, new = filter (fun row => negb (has_id id row)) old).

(** A route while other requests write to the file. *)
Definition route_amid {A} (writes : list (Db -> Db)) (handler : Handler A)
    (render : A -> HttpResponse) (file : Db) : HttpResponse * Db :=
  match get_conn_amid writes handler file with
  | (Return a, file') => (render a, file')
  | (Raise e, file') => (on_exception e, file')
  end.

(** The routes of [serve], while other requests write to the file; the
    file returned is the file as the last statement of the handler found
    or left it. *)
Definition serve_amid (writes : list (Db -> Db)) (req : Request)
  : Db -> HttpResponse * Db :=
  match req with
  | GET_messages =>
      route_amid writes get_messages (fun l => mkHttp 200 (JsonArray l))
  | GET_message id =>
      route_amid writes (get_message id) (fun d => mkHttp 200 (JsonObject d))
  | POST_messages text =>
      Query text (fun text =>
        route_amid writes (create_message text)
              (fun d => mkHttp HTTP_201_CREATED (JsonObject d)))
  | PUT_message id text =>
      Query text (fun text =>
        route_amid writes (put_message id text (Some (mkResponse None)))
              (fun r => mkHttp (put_status (snd r)) (JsonObject (fst r))))
  | PATCH_message id text =>
      Query text (fun text =>
        route_amid writes (patch_message id text)
                   (fun d => mkHttp 200 (JsonObject d)))
  | DELETE_message id =>
      route_amid writes (delete_message id)
                 (fun _ => mkHttp HTTP_204_NO_CONTENT NoBody)
  end.

(** The file as the first statement of a handler finds it, and as the
    statement after its commit finds the file [db] it committed. *)
Definition first_found (writes : list (Db -> Db)) (db : Db) : Db :=
  match writes with
  | write :: _ => write db
  | [] => db
  end.

Definition next_found (writes : list (Db -> Db)) (db : Db) : Db :=
  match writes with
  | _ :: write :: _ => write db
  | _ => db
  end.

(** Another request that replaces every text of the table, and one that
    deletes the message of an id. *)
Definition overwrite (text : string) (db : Db) : Db :=
  mkDb (map (fun row => mkRow (row_id row) text) (messages db))
       (sqlite_sequence db).

Definition deleting (id : Z) (db : Db) : Db :=
  snd (serve (DELETE_message id) db).

(** What SQLite keeps true of the file: the sequence is never negative and
    never beyond [MAX_INT], and every id of the table is a 64-bit integer
    that the sequence has reached. *)
Definition consistent (db : Db) : Prop :=
  0 <= sqlite_sequence db <= MAX_INT
  /\ Forall (fun row => MIN_INT <= row_id row <= sqlite_sequence db)
            (messages db).

(** Requests served one after the other, each on the file the one before
    it left. *)
Fixpoint serve_all (reqs : list Request) (db : Db) : list HttpResponse * Db :=
  match reqs with
  | [] => ([], db)
  | req :: rest =>
      let (resp, db1) := serve req db in
      let (resps, db2) := serve_all rest db1 in
      (resp :: resps, db2)
  end.

(** Whether the id in the path of a request can be bound. *)
Definition path_id_fits (req : Request) : bool :=
  match req with
  | GET_message id | PUT_message id _ | PATCH_message id _
  | DELETE_message id => fits_int64 id
  | GET_messages | POST_messages _ => true
  end.


(** The exception a handler leaves [get_conn] with, if any. *)
Definition raised {A} (handler : Handler A) (file : Db) : option Exn :=
  match fst (get_conn handler file) with
  | Raise e => Some e
  | Return _ => None
  end.

(** The exception behind the answer to a request; a request refused by
    [Query] calls no handler. *)
Definition exception_of (req : Request) (db : Db) : option Exn :=
  match req with
  | GET_messages => raised get_messages db
  | GET_message id => raised (get_message id) db
  | POST_messages (Some text) => raised (create_message text) db
  | PUT_message id (Some text) =>
      raised (put_message id text (Some (mkResponse None))) db
  | PATCH_message id (Some text) => raised (patch_message id text) db
  | DELETE_message id => raised (delete_message id) db
  | POST_messages None | PUT_message _ None | PATCH_message _ None => None
  end.

(** The answers of the routes, case by case: the request, the response and
    the file left, from the file [db]. *)
Inductive answers (db : Db) : Request -> HttpResponse -> Db -> Prop :=
| ans_list :
    answers db GET_messages
      (mkHttp 200 (JsonArray (map row_to_dict (messages db)))) db
| ans_get (id : Z) (row : Row) (rest : list Row) :
    fits_int64 id = true ->
    filter (has_id id) (messages db) = row :: rest ->
    answers db (GET_message id) (mkHttp 200 (JsonObject (row_to_dict row))) db
| ans_get_404 (id : Z) :
    fits_int64 id = true ->
    filter (has_id id) (messages db) = [] ->
    answers db (GET_message id) message_not_found db
| ans_get_500 (id : Z) :
    fits_int64 id = false ->
    answers db (GET_message id) internal_server_error db
| ans_post (text : string) (new : Z) :
    next_rowid db = Some new ->
    fits_int64 new = true ->
    answers db (POST_messages (Some text)) (mkHttp 201 (Message new text))
      (mkDb (insert_row (mkRow new text) (messages db)) new)
| ans_post_unread (text : string) (new : Z) :
    next_rowid db = Some new ->
    fits_int64 new = false ->
    answers db (POST_messages (Some text)) internal_server_error
      (mkDb (insert_row (mkRow new text) (messages db)) new)
| ans_post_full (text : string) :
    next_rowid db = None ->
    answers db (POST_messages (Some text)) internal_server_error db
| ans_post_422 :
    answers db (POST_messages None) unprocessable db
| ans_put_created (id : Z) (text : string) :
    fits_int64 id = true ->
    filter (has_id id) (messages db) = [] ->
    answers db (PUT_message id (Some text)) (mkHttp 201 (Message id text))
      (mkDb (insert_row (mkRow id text) (messages db))
            (Z.max (sqlite_sequence db) id))
| ans_put_updated (id : Z) (text : string) :
    fits_int64 id = true ->
    In id (ids db) ->
    answers db (PUT_message id (Some text)) (mkHttp 200 (Message id text))
      (mkDb (map (set_text text id) (messages db)) (sqlite_sequence db))
| ans_put_500 (id : Z) (text : string) :
    fits_int64 id = false ->
    answers db (PUT_message id (Some text)) internal_server_error db
| ans_put_422 (id : Z) :
    answers db (PUT_message id None) unprocessable db
| ans_patch_updated (id : Z) (text : string) :
    fits_int64 id = true ->
    In id (ids db) ->
    answers db (PATCH_message id (Some text)) (mkHttp 200 (Message id text))
      (mkDb (map (set_text text id) (messages db)) (sqlite_sequence db))
| ans_patch_404 (id : Z) (text : string) :
    fits_int64 id = true ->
    filter (has_id id) (messages db) = [] ->
    answers db (PATCH_message id (Some text)) message_not_found db
| ans_patch_500 (id : Z) (text : string) :
    fits_int64 id = false ->
    answers db (PATCH_message id (Some text)) internal_server_error db
| ans_patch_422 (id : Z) :
    answers db (PATCH_message id None) unprocessable db
| ans_delete_done (id : Z) :
    fits_int64 id = true ->
    In id (ids db) ->
    answers db (DELETE_message id) (mkHttp 204 NoBody)
      (mkDb (filter (fun row => negb (has_id id row)) (messages db))
            (sqlite_sequence db))
| ans_delete_404 (id : Z) :
    fits_int64 id = true ->
    filter (has_id id) (messages db) = [] ->
    answers db (DELETE_message id) message_not_found db
| ans_delete_500 (id : Z) :
    fits_int64 id = false ->
    answers db (DELETE_message id) internal_server_error db.

(** ** Facts about the store *)

Section StoreFacts.

Variable id : Z.

Lemma has_id_true (row : Row) : has_id id row = true <-> row_id row = id.
Proof. unfold has_id. apply Z.eqb_eq. Qed.

Lemma absent_iff (rows : list Row) :
  filter (has_id id) rows = [] <-> ~ In id (map row_id rows).
Proof.
  induction rows as [|row rows IH]; simpl.
  - tauto.
  - destruct (has_id id row) eqn:E.
    + apply has_id_true in E. split; [discriminate | intros H; exfalso; auto].
    + assert (row_id row <> id) by (intros H; apply has_id_true in H; congruence).
      tauto.
Qed.

Lemma count_id_zero (rows : list Row) :
  (count_id id rows =? 0) = true <-> filter (has_id id) rows = [].
Proof.
  unfold count_id. rewrite Z.eqb_eq.
  destruct (filter (has_id id) rows); simpl; split;
    intros; try reflexivity; try discriminate; lia.
Qed.

Lemma count_id_pos (rows : list Row) :
  (count_id id rows =? 0) = false <-> In id (map row_id rows).
Proof.
  rewrite <- Bool.not_true_iff_false, count_id_zero, absent_iff.
  destruct (in_dec Z.eq_dec id (map row_id rows)); tauto.
Qed.

Lemma existsb_absent (rows : list Row) :
  filter (has_id id) rows = [] -> existsb (has_id id) rows = false.
Proof.
  induction rows as [|row rows IH]; simpl; [reflexivity|].
  destruct (has_id id row); [discriminate | exact IH].
Qed.

Lemma set_text_id (text : string) (row : Row) :
  row_id (set_text text id row) = row_id row.
Proof. unfold set_text. destruct (has_id id row); reflexivity. Qed.

Lemma map_set_text_ids (text : string) (rows : list Row) :
  map row_id (map (set_text text id) rows) = map row_id rows.
Proof.
  rewrite map_map. apply map_ext. intros row. apply set_text_id.
Qed.

Lemma set_text_absent (text : string) (rows : list Row) :
  filter (has_id id) rows = [] -> map (set_text text id) rows = rows.
Proof.
  induction rows as [|row rows IH]; simpl; [reflexivity|].
  unfold set_text at 1. destruct (has_id id row); [discriminate|].
  intros H. now rewrite IH.
Qed.

Lemma set_text_twice (text : string) (rows : list Row) :
  map (set_text text id) (map (set_text text id) rows)
  = map (set_text text id) rows.
Proof.
  rewrite map_map. apply map_ext. intros row. unfold set_text.
  destruct (has_id id row) eqn:E; simpl.
  - unfold has_id in *. simpl. now rewrite E.
  - now rewrite E.
Qed.

Lemma filter_set_text (text : string) (rows : list Row) :
  filter (has_id id) (map (set_text text id) rows)
  = map (fun _ => mkRow id text) (filter (has_id id) rows).
Proof.
  induction rows as [|row rows IH]; simpl; [reflexivity|].
  destruct (has_id id row) eqn:E.
  - assert (set_text text id row = mkRow id text) as ->.
    { unfold set_text. rewrite E. apply has_id_true in E. now rewrite E. }
    unfold has_id at 1. simpl. rewrite Z.eqb_refl. simpl. now rewrite IH.
  - assert (set_text text id row = row) as ->.
    { unfold set_text. now rewrite E. }
    now rewrite E.
Qed.

Lemma count_id_set_text (text : string) (rows : list Row) :
  count_id id (map (set_text text id) rows) = count_id id rows.
Proof.
  unfold count_id. now rewrite filter_set_text, length_map.
Qed.

Lemma filter_deleted (rows : list Row) :
  filter (has_id id) (filter (fun row => negb (has_id id row)) rows) = [].
Proof.
  induction rows as [|row rows IH]; simpl; [reflexivity|].
  destruct (has_id id row) eqn:E; simpl; [exact IH | now rewrite E].
Qed.

Lemma delete_absent (rows : list Row) :
  filter (has_id id) rows = [] ->
  filter (fun row => negb (has_id id row)) rows = rows.
Proof.
  induction rows as [|row rows IH]; simpl; [reflexivity|].
  destruct (has_id id row); simpl; [discriminate|].
  intros H. now rewrite IH.
Qed.

Lemma delete_ids (rows : list Row) :
  map row_id (filter (fun row => negb (has_id id row)) rows)
  = filter (fun i => negb (i =? id)) (map row_id rows).
Proof.
  induction rows as [|row rows IH]; simpl; [reflexivity|].
  unfold has_id at 1. destruct (row_id row =? id); simpl; now rewrite IH.
Qed.

(** With distinct ids, DELETE takes one row out at most. *)
Lemma delete_one (rows : list Row) :
  NoDup (map row_id rows) -> In id (map row_id rows) ->
  List.length rows
  = S (List.length (filter (fun row => negb (has_id id row)) rows)).
Proof.
  induction rows as [|row rows IH]; simpl; [tauto|].
  intros ND Hin. inversion ND as [|? ? Hnot ND']; subst.
  destruct (has_id id row) eqn:E; simpl.
  - apply has_id_true in E. rewrite E in Hnot.
    rewrite delete_absent; [reflexivity | now apply absent_iff].
  - destruct Hin as [Hin|Hin].
    + apply has_id_true in Hin. congruence.
    + now rewrite <- IH.
Qed.

End StoreFacts.

(** [insert_row] puts the new row somewhere and moves nothing else. *)
Lemma insert_row_split (new : Row) (rows : list Row) :
  exists before after,
    rows = before ++ after /\ insert_row new rows = before ++ new :: after.
Proof.
  induction rows as [|row rows (before & after & E1 & E2)]; simpl.
  - exists [], []. auto.
  - destruct (row_id new <? row_id row).
    + exists [], (row :: rows). auto.
    + exists (row :: before), after. simpl. now rewrite <- E1, E2.
Qed.

Lemma filter_insert_row (id : Z) (text : string) (rows : list Row) :
  filter (has_id id) rows = [] ->
  filter (has_id id) (insert_row (mkRow id text) rows) = [mkRow id text].
Proof.
  intros H.
  destruct (insert_row_split (mkRow id text) rows) as (before & after & E1 & E2).
  rewrite E2, filter_app. rewrite E1, filter_app in H.
  apply app_eq_nil in H as [Hb Ha]. rewrite Hb. simpl.
  unfold has_id at 1. simpl. now rewrite Z.eqb_refl, Ha.
Qed.

Lemma insert_row_ids (new : Row) (rows : list Row) :
  ~ In (row_id new) (map row_id rows) ->
  NoDup (map row_id rows) ->
  NoDup (map row_id (insert_row new rows)).
Proof.
  intros Hnot ND.
  destruct (insert_row_split new rows) as (before & after & E1 & E2).
  rewrite E2, map_app. simpl. rewrite E1, map_app in *.
  apply (NoDup_Add (Add_app (row_id new) (map row_id before) (map row_id after))).
  now split.
Qed.

Lemma fold_max_init (l : list Z) (a : Z) : a <= fold_left Z.max l a.
Proof.
  revert a. induction l as [|x l IH]; simpl; intros a; [lia|].
  specialize (IH (Z.max a x)). lia.
Qed.

Lemma fold_max_In (l : list Z) (a x : Z) :
  In x l -> x <= fold_left Z.max l a.
Proof.
  revert a. induction l as [|y l IH]; simpl; intros a; [tauto|].
  intros [->|Hin]; [|now apply IH].
  assert (H := fold_max_init l (Z.max a x)). lia.
Qed.

Lemma max_rowid_bound (row : Row) (rows : list Row) (m : Z) :
  max_rowid rows = Some m -> In row rows -> row_id row <= m.
Proof.
  destruct rows as [|first rest]; simpl; [discriminate|].
  intros E [->|Hin]; injection E as <-.
  - apply fold_max_init.
  - apply fold_max_In. now apply in_map.
Qed.

(** ** What each route answers *)

Lemma serve_GET_messages (db : Db) :
  serve GET_messages db
  = (mkHttp 200 (JsonArray (map row_to_dict (messages db))), db).
Proof. reflexivity. Qed.

Section InRange.

Variables (id : Z) (db : Db).
Hypothesis fits : fits_int64 id = true.

Lemma serve_GET_message :
  serve (GET_message id) db
  = (match filter (has_id id) (messages db) with
     | [] => message_not_found
     | row :: _ => mkHttp 200 (JsonObject (row_to_dict row))
     end, db).
Proof.
  run_handler. rewrite fits.
  destruct (filter (has_id id) (messages db)); reflexivity.
Qed.

Lemma serve_PUT_absent (text : string) :
  filter (has_id id) (messages db) = [] ->
  serve (PUT_message id (Some text)) db
  = (mkHttp 201 (Message id text),
     mkDb (insert_row (mkRow id text) (messages db))
          (Z.max (sqlite_sequence db) id)).
Proof.
  intros absent. run_handler. rewrite fits.
  cbv [messages sqlite_sequence].
  fold (messages db). fold (sqlite_sequence db).
  rewrite (proj2 (count_id_zero id _) absent).
  rewrite (set_text_absent id text _ absent).
  rewrite (existsb_absent id _ absent).
  rewrite (filter_insert_row id text _ absent).
  reflexivity.
Qed.

Lemma present_count : In id (ids db) -> (count_id id (messages db) =? 0) = false.
Proof. apply count_id_pos. Qed.

Lemma select_after_update (text : string) :
  In id (ids db) ->
  exists rest,
    filter (has_id id) (map (set_text text id) (messages db))
    = mkRow id text :: rest.
Proof.
  intros present. rewrite filter_set_text.
  destruct (filter (has_id id) (messages db)) as [|row rest] eqn:E.
  - apply absent_iff in E. contradiction.
  - simpl. eauto.
Qed.

Lemma serve_PUT_present (text : string) :
  In id (ids db) ->
  serve (PUT_message id (Some text)) db
  = (mkHttp 200 (Message id text),
     mkDb (map (set_text text id) (messages db)) (sqlite_sequence db)).
Proof.
  intros present. run_handler. rewrite fits.
  cbv [messages sqlite_sequence].
  fold (messages db). fold (sqlite_sequence db).
  rewrite (present_count present).
  destruct (select_after_update text present) as [rest ->].
  reflexivity.
Qed.

Lemma serve_PATCH_absent (text : string) :
  filter (has_id id) (messages db) = [] ->
  serve (PATCH_message id (Some text)) db = (message_not_found, db).
Proof.
  intros absent. run_handler. rewrite fits.
  now rewrite (proj2 (count_id_zero id _) absent).
Qed.

Lemma serve_PATCH_present (text : string) :
  In id (ids db) ->
  serve (PATCH_message id (Some text)) db
  = (mkHttp 200 (Message id text),
     mkDb (map (set_text text id) (messages db)) (sqlite_sequence db)).
Proof.
  intros present. run_handler. rewrite fits.
  cbv [messages sqlite_sequence].
  fold (messages db). fold (sqlite_sequence db).
  rewrite (present_count present).
  destruct (select_after_update text present) as [rest ->].
  reflexivity.
Qed.

Lemma serve_DELETE_absent :
  filter (has_id id) (messages db) = [] ->
  serve (DELETE_message id) db = (message_not_found, db).
Proof.
  intros absent. run_handler. rewrite fits.
  now rewrite (proj2 (count_id_zero id _) absent).
Qed.

Lemma serve_DELETE_present :
  In id (ids db) ->
  serve (DELETE_message id) db
  = (mkHttp 204 NoBody,
     mkDb (filter (fun row => negb (has_id id row)) (messages db))
          (sqlite_sequence db)).
Proof.
  intros present. run_handler. rewrite fits.
  now rewrite (present_count present).
Qed.

End InRange.

(** An id outside the 64-bit range cannot be bound: the first [execute]
    raises, nothing is written and the answer is a 500. *)
Section OutOfRange.

Variables (id : Z) (db : Db).
Hypothesis overflow : fits_int64 id = false.

Lemma serve_GET_overflow :
  serve (GET_message id) db = (internal_server_error, db).
Proof. run_handler. now rewrite overflow. Qed.

Lemma serve_PUT_overflow (text : string) :
  serve (PUT_message id (Some text)) db = (internal_server_error, db).
Proof. run_handler. now rewrite overflow. Qed.

Lemma serve_PATCH_overflow (text : string) :
  serve (PATCH_message id (Some text)) db = (internal_server_error, db).
Proof. run_handler. now rewrite overflow. Qed.

Lemma serve_DELETE_overflow :
  serve (DELETE_message id) db = (internal_server_error, db).
Proof. run_handler. now rewrite overflow. Qed.

End OutOfRange.

(** POST: the row gets the next rowid of the sequence. *)
Lemma next_rowid_fresh (db : Db) (new : Z) :
  next_rowid db = Some new -> filter (has_id new) (messages db) = [].
Proof.
  unfold next_rowid. intros H. apply absent_iff. intros Hin.
  apply in_map_iff in Hin as (row & E & Hin).
  destruct (max_rowid (messages db)) as [m|] eqn:Em.
  - assert (Hle := max_rowid_bound row _ m Em Hin).
    destruct (_ || _); [discriminate|]. injection H as <-. lia.
  - destruct (messages db); [contradiction | discriminate].
Qed.

Lemma serve_POST (db : Db) (text : string) (new : Z) :
  next_rowid db = Some new -> fits_int64 new = true ->
  serve (POST_messages (Some text)) db
  = (mkHttp 201 (Message new text),
     mkDb (insert_row (mkRow new text) (messages db)) new).
Proof.
  intros next fits. run_handler. rewrite next, fits.
  cbv [messages]. fold (messages db).
  now rewrite (filter_insert_row new text _ (next_rowid_fresh db new next)).
Qed.

Lemma serve_POST_full (db : Db) (text : string) :
  next_rowid db = None ->
  serve (POST_messages (Some text)) db = (internal_server_error, db).
Proof. intros full. run_handler. now rewrite full. Qed.

Lemma max_rowid_attained (rows : list Row) (m : Z) :
  max_rowid rows = Some m -> exists row, In row rows /\ row_id row = m.
Proof.
  destruct rows as [|first rest]; simpl; [discriminate|].
  intros E. injection E as <-. revert first.
  induction rest as [|r rest IH]; simpl; intros first.
  - eauto.
  - destruct (Z.max_spec (row_id first) (row_id r)) as [[_ ->]|[_ ->]].
    + destruct (IH r) as (row & [<-|Hin] & E); eauto.
    + destruct (IH first) as (row & [<-|Hin] & E); eauto.
Qed.

Lemma fits_int64_bounds (n : Z) :
  MIN_INT <= n <= MAX_INT -> fits_int64 n = true.
Proof.
  intros [lo hi]. unfold fits_int64.
  apply andb_true_intro. split; now apply Z.leb_le.
Qed.

Lemma next_rowid_left (db : Db) :
  sequence_left db ->
  exists new, next_rowid db = Some new /\ fits_int64 new = true.
Proof.
  intros [Hseq Hrows]. unfold next_rowid.
  assert (forall m, max_rowid (messages db) = Some m -> m < MAX_INT) as below.
  { intros m E. destruct (max_rowid_attained _ _ E) as (row & Hin & <-).
    rewrite Forall_forall in Hrows. auto. }
  assert (MIN_INT <= 0) as lo by (unfold MIN_INT; lia).
  destruct (Z.eqb_spec (sqlite_sequence db) MAX_INT); [lia|].
  destruct (max_rowid (messages db)) as [m|]; simpl.
  - specialize (below m eq_refl).
    destruct (Z.eqb_spec m MAX_INT); [lia|].
    eexists. split; [reflexivity|]. apply fits_int64_bounds. lia.
  - eexists. split; [reflexivity|]. apply fits_int64_bounds. lia.
Qed.

(** The row is committed before it is read back: POST leaves it in the
    file whatever the SELECT does. *)
Lemma file_after_POST (db : Db) (text : string) (new : Z) :
  next_rowid db = Some new ->
  file_after (POST_messages (Some text)) db
  = mkDb (insert_row (mkRow new text) (messages db)) new.
Proof.
  intros next. run_handler. rewrite next.
  destruct (fits_int64 new); simpl; [|reflexivity].
  cbv [messages]. fold (messages db).
  now rewrite (filter_insert_row new text _ (next_rowid_fresh db new next)).
Qed.

Lemma set_text_inserted (id : Z) (text : string) (rows : list Row) :
  filter (has_id id) rows = [] ->
  map (set_text text id) (insert_row (mkRow id text) rows)
  = insert_row (mkRow id text) rows.
Proof.
  intros absent.
  destruct (insert_row_split (mkRow id text) rows) as (before & after & E1 & E2).
  rewrite E2, map_app. simpl.
  rewrite E1, filter_app in absent. apply app_eq_nil in absent as [Hb Ha].
  rewrite !set_text_absent by assumption.
  unfold set_text, has_id. simpl. now rewrite Z.eqb_refl.
Qed.

Lemma inserted_present (new : Row) (rows : list Row) :
  In (row_id new) (map row_id (insert_row new rows)).
Proof.
  destruct (insert_row_split new rows) as (before & after & _ & ->).
  rewrite map_app. apply in_or_app. right. now left.
Qed.

Lemma present_or_absent (id : Z) (db : Db) :
  {In id (ids db)} + {filter (has_id id) (messages db) = []}.
Proof.
  destruct (in_dec Z.eq_dec id (ids db)) as [present|absent].
  - now left.
  - right. now apply absent_iff.
Qed.

Lemma serve_effect (req : Request) (db : Db) : effect db (file_after req db).
Proof.
  destruct req as [|id|[text|]|id [text|]|id [text|]|id];
    try (apply effect_none).
  - (* GET by id *)
    unfold file_after. destruct (fits_int64 id) eqn:fits.
    + rewrite serve_GET_message by assumption. apply effect_none.
    + rewrite serve_GET_overflow by assumption. apply effect_none.
  - (* POST *)
    destruct (next_rowid db) as [new|] eqn:next.
    + rewrite (file_after_POST db text new next).
      apply effect_insert. apply absent_iff. now apply next_rowid_fresh.
    + unfold file_after. rewrite serve_POST_full by assumption. apply effect_none.
  - (* PUT *)
    unfold file_after. destruct (fits_int64 id) eqn:fits.
    + destruct (present_or_absent id db) as [present|absent].
      * rewrite serve_PUT_present by assumption. apply effect_update.
      * rewrite serve_PUT_absent by assumption.
        apply effect_insert. now apply absent_iff.
    + rewrite serve_PUT_overflow by assumption. apply effect_none.
  - (* PATCH *)
    unfold file_after. destruct (fits_int64 id) eqn:fits.
    + destruct (present_or_absent id db) as [present|absent].
      * rewrite serve_PATCH_present by assumption. apply effect_update.
      * rewrite serve_PATCH_absent by assumption. apply effect_none.
    + rewrite serve_PATCH_overflow by assumption. apply effect_none.
  - (* DELETE *)
    unfold file_after. destruct (fits_int64 id) eqn:fits.
    + destruct (present_or_absent id db) as [present|absent].
      * rewrite serve_DELETE_present by assumption. apply effect_delete.
      * rewrite serve_DELETE_absent by assumption. apply effect_none.
    + rewrite serve_DELETE_overflow by assumption. apply effect_none.
Qed.

(** ** The properties of the specification *)

(** The two scenarios of the specification, run on a fresh table. *)
Example scenario_post_patch_delete_get :
  let (created, db1) := serve (POST_messages (Some "hello"%string)) (init_db None) in
  let (patched, db2) := serve (PATCH_message 1 (Some "world"%string)) db1 in
  let (deleted, db3) := serve (DELETE_message 1) db2 in
  let (gone, _) := serve (GET_message 1) db3 in
  created = mkHttp 201 (Message 1 "hello")
  /\ patched = mkHttp 200 (Message 1 "world")
  /\ deleted = mkHttp 204 NoBody
  /\ gone = message_not_found.
Proof. vm_compute. repeat split. Qed.

Example scenario_put_on_empty_table :
  response_of (PUT_message 5 (Some "x"%string)) (init_db None)
  = mkHttp 201 (Message 5 "x").
Proof. reflexivity. Qed.

(** C10. The two reads leave the stored table as it was: GET /messages in
    every state, GET /messages/{id} for every id, found or not. *)
Theorem reads_leave_the_table (db : Db) (id : Z) :
  file_after GET_messages db = db
  /\ file_after (GET_message id) db = db.
Proof.
  split; [reflexivity|]. unfold file_after.
  destruct (fits_int64 id) eqn:fits.
  - now rewrite serve_GET_message.
  - now rewrite serve_GET_overflow.
Qed.

(** C4, as stated, fails: the id 2^63 is in no table, and GET on it is
    answered 500, not 404. *)
Lemma get_message_beyond_int64 :
  ~ In too_large (ids hello_db)
  /\ response_of (GET_message too_large) hello_db = internal_server_error
  /\ status (response_of (GET_message too_large) hello_db) <> 404.
Proof.
  split; [|split].
  - simpl. intros [H|[]]. discriminate.
  - reflexivity.
  - discriminate.
Qed.

(** C4 (amended). For every id in the signed 64-bit range of SQLite's
    INTEGER: GET /messages/{id} answers 200 with the Message of the row of
    that id when there is one, answers 404 with detail 'Message not found'
    exactly when there is none, and leaves the table unchanged. *)
Theorem get_message_found_or_404 (id : Z) (db : Db) :
  fits_int64 id = true ->
  file_after (GET_message id) db = db
  /\ (In id (ids db) ->
      exists row, In row (messages db) /\ row_id row = id
                  /\ response_of (GET_message id) db
                     = mkHttp 200 (Message id (row_text row)))
  /\ (~ In id (ids db) -> response_of (GET_message id) db = message_not_found)
  /\ (status (response_of (GET_message id) db) = 404 <-> ~ In id (ids db)).
Proof.
  intros fits. unfold file_after, response_of.
  rewrite (serve_GET_message id db fits). simpl.
  destruct (filter (has_id id) (messages db)) as [|row rest] eqn:E.
  - assert (absent := proj1 (absent_iff id _) E).
    repeat split; auto. intros present. contradiction.
  - assert (In row (filter (has_id id) (messages db))) as Hin
        by (rewrite E; now left).
    apply filter_In in Hin as [Hin Hid]. apply has_id_true in Hid.
    assert (In id (ids db)) as present.
    { unfold ids. rewrite <- Hid. now apply in_map. }
    repeat split; try tauto; try discriminate.
    intros _. exists row. repeat split; auto.
    unfold Message, row_to_dict. simpl. now rewrite Hid.
Qed.

Lemma get_message_found_or_404_witness :
  fits_int64 1 = true
  /\ (status (response_of (GET_message 1) hello_db) = 404
      <-> ~ In 1 (ids hello_db)).
Proof.
  split; [reflexivity|].
  apply (get_message_found_or_404 1 hello_db). reflexivity.
Defined.

(** C2, as stated, fails: the id 2^63 is absent from the table, and PATCH
    on it is answered 500, not 404. *)
Lemma patch_message_beyond_int64 :
  ~ In too_large (ids hello_db)
  /\ response_of (PATCH_message too_large (Some "world"%string)) hello_db
     = internal_server_error
  /\ status (response_of (PATCH_message too_large (Some "world"%string)) hello_db)
     <> 404.
Proof.
  split; [|split].
  - simpl. intros [H|[]]. discriminate.
  - reflexivity.
  - discriminate.
Qed.

(** C2 (amended). For every id in the signed 64-bit range that is absent
    from the table and every text, PATCH /messages/{id} fails with status
    404 and the message 'Message not found', and the stored table after the
    request equals the stored table before it. *)
Theorem patch_message_absent (id : Z) (text : string) (db : Db) :
  fits_int64 id = true ->
  ~ In id (ids db) ->
  response_of (PATCH_message id (Some text)) db = message_not_found
  /\ file_after (PATCH_message id (Some text)) db = db.
Proof.
  intros fits absent. apply absent_iff in absent.
  unfold response_of, file_after.
  now rewrite (serve_PATCH_absent id db fits text absent).
Qed.

Lemma patch_message_absent_witness :
  fits_int64 2 = true /\ ~ In 2 (ids hello_db)
  /\ file_after (PATCH_message 2 (Some "world"%string)) hello_db = hello_db.
Proof.
  assert (~ In 2 (ids hello_db)) as absent
      by (simpl; intros [H|[]]; discriminate).
  split; [reflexivity|]. split; [exact absent|].
  apply (patch_message_absent 2 "world" hello_db); [reflexivity | exact absent].
Defined.

(** C3, as stated, fails: no row has the id 2^63, and DELETE on it is
    answered 500, not 404. *)
Lemma delete_message_beyond_int64 :
  ~ In too_large (ids hello_db)
  /\ response_of (DELETE_message too_large) hello_db = internal_server_error
  /\ status (response_of (DELETE_message too_large) hello_db) <> 404.
Proof.
  split; [|split].
  - simpl. intros [H|[]]. discriminate.
  - reflexivity.
  - discriminate.
Qed.

(** C3 (amended). For every id in the signed 64-bit range: DELETE
    /messages/{id} on a state with a row of that id removes that row and no
    other (one row, when ids are distinct), answers 204 with no body, and a
    GET of that id afterwards answers 404; on a state with no such row it
    answers 404 and leaves the table unchanged. *)
Theorem delete_message_removes (id : Z) (db : Db) :
  fits_int64 id = true ->
  (In id (ids db) ->
     response_of (DELETE_message id) db = mkHttp 204 NoBody
     /\ messages (file_after (DELETE_message id) db)
        = filter (fun row => negb (has_id id row)) (messages db)
     /\ (NoDup (ids db) ->
         List.length (messages db)
         = S (List.length (messages (file_after (DELETE_message id) db))))
     /\ response_of (GET_message id) (file_after (DELETE_message id) db)
        = message_not_found)
  /\ (~ In id (ids db) ->
     response_of (DELETE_message id) db = message_not_found
     /\ file_after (DELETE_message id) db = db).
Proof.
  intros fits. unfold response_of, file_after. split.
  - intros present. rewrite (serve_DELETE_present id db fits present). cbn [fst snd messages].
    repeat split.
    + intros distinct. now apply delete_one.
    + rewrite serve_GET_message by assumption. cbn [fst snd messages].
      now rewrite filter_deleted.
  - intros absent. apply absent_iff in absent.
    now rewrite (serve_DELETE_absent id db fits absent).
Qed.

Lemma delete_message_removes_witness :
  fits_int64 1 = true
  /\ response_of (GET_message 1) (file_after (DELETE_message 1) hello_db)
     = message_not_found.
Proof.
  split; [reflexivity|].
  apply (delete_message_removes 1 hello_db); [reflexivity|].
  simpl. now left.
Defined.

(** C1, as stated, fails: the table holds no row of id 2^63, and PUT on
    that id inserts nothing and is answered 500, not 201. *)
Lemma put_message_beyond_int64 :
  ~ In too_large (ids hello_db)
  /\ serve (PUT_message too_large (Some "x"%string)) hello_db
     = (internal_server_error, hello_db)
  /\ status (response_of (PUT_message too_large (Some "x"%string)) hello_db)
     <> 201.
Proof.
  split; [|split].
  - simpl. intros [H|[]]. discriminate.
  - reflexivity.
  - discriminate.
Qed.

(** C1 (amended). For every id in the signed 64-bit range and every text:
    PUT /messages/{id} on a state with no row of that id inserts a row with
    exactly that id and text and answers 201 with the final Message; on a
    state with a row of that id it replaces that row's text and answers 200
    with the final Message; in both cases a GET of that id afterwards
    returns the new text. *)
Theorem put_message_upserts (id : Z) (text : string) (db : Db) :
  fits_int64 id = true ->
  (~ In id (ids db) ->
     response_of (PUT_message id (Some text)) db = mkHttp 201 (Message id text)
     /\ exists before after,
          messages db = before ++ after
          /\ messages (file_after (PUT_message id (Some text)) db)
             = before ++ mkRow id text :: after)
  /\ (In id (ids db) ->
     response_of (PUT_message id (Some text)) db = mkHttp 200 (Message id text)
     /\ messages (file_after (PUT_message id (Some text)) db)
        = map (set_text text id) (messages db))
  /\ response_of (GET_message id) (file_after (PUT_message id (Some text)) db)
     = mkHttp 200 (Message id text).
Proof.
  intros fits. unfold response_of, file_after.
  destruct (present_or_absent id db) as [present|absent].
  - rewrite (serve_PUT_present id db fits text present). cbn [fst snd messages].
    split; [intros absent; contradiction|]. split; [auto|].
    rewrite serve_GET_message by assumption. cbn [fst snd messages].
    now destruct (select_after_update id db text present) as [rest ->].
  - rewrite (serve_PUT_absent id db fits text absent). cbn [fst snd messages].
    split; [|split].
    + intros _. split; [reflexivity|].
      destruct (insert_row_split (mkRow id text) (messages db))
        as (before & after & E1 & E2).
      exists before, after. auto.
    + intros present. apply absent_iff in absent. contradiction.
    + rewrite serve_GET_message by assumption. cbn [fst snd messages].
      now rewrite filter_insert_row.
Qed.

Lemma put_message_upserts_witness :
  fits_int64 5 = true
  /\ response_of (GET_message 5)
       (file_after (PUT_message 5 (Some "x"%string)) empty)
     = mkHttp 200 (Message 5 "x").
Proof.
  split; [reflexivity|].
  apply (put_message_upserts 5 "x" empty). reflexivity.
Defined.

(** C5, as stated, fails: once a row holds the largest id (here after
    PUT /messages/9223372036854775807), POST is answered 500 and returns
    no id to read back. *)
Lemma create_message_sequence_full :
  file_after (PUT_message MAX_INT (Some "x"%string)) empty = full_db
  /\ serve (POST_messages (Some "hello"%string)) full_db
     = (internal_server_error, full_db).
Proof. split; reflexivity. Qed.

(** C5 (amended). For every text and every starting state in which the
    largest id ever used is below 2^63 - 1: POST /messages answers 201 with
    a Message of some id and the text supplied, and GET /messages/{id} on
    that id then returns a Message with that same text. *)
Theorem create_then_get (text : string) (db : Db) :
  sequence_left db ->
  exists id,
    response_of (POST_messages (Some text)) db = mkHttp 201 (Message id text)
    /\ response_of (GET_message id) (file_after (POST_messages (Some text)) db)
       = mkHttp 200 (Message id text).
Proof.
  intros left_. destruct (next_rowid_left db left_) as (new & next & fits).
  exists new. unfold response_of, file_after.
  rewrite (serve_POST db text new next fits). cbn [fst snd].
  split; [reflexivity|].
  rewrite serve_GET_message by assumption. cbn [fst snd messages].
  now rewrite (filter_insert_row new text _ (next_rowid_fresh db new next)).
Qed.

Lemma create_then_get_witness :
  sequence_left hello_db
  /\ exists id,
       response_of (POST_messages (Some "world"%string)) hello_db
       = mkHttp 201 (Message id "world")
       /\ response_of (GET_message id)
            (file_after (POST_messages (Some "world"%string)) hello_db)
          = mkHttp 200 (Message id "world").
Proof.
  assert (sequence_left hello_db) as left_.
  { unfold sequence_left, hello_db, MAX_INT. simpl. split; [lia|].
    constructor; [simpl; lia | constructor]. }
  split; [exact left_|].
  apply (create_then_get "world" hello_db left_).
Defined.

(** C7, as stated, fails: with the id 2^63 the second PUT is answered 500
    like the first, not 200. *)
Lemma put_twice_beyond_int64 :
  serve (PUT_message too_large (Some "x"%string)) hello_db
  = (internal_server_error, hello_db)
  /\ status (response_of (PUT_message too_large (Some "x"%string))
               (file_after (PUT_message too_large (Some "x"%string)) hello_db))
     <> 200.
Proof. split; [reflexivity | discriminate]. Qed.

(** C7 (amended). PUT /messages/{id} is idempotent for every id in the
    signed 64-bit range: for every text and starting state, a second PUT
    leaves the stored table as the first left it, and is answered 200 with
    the same Message as the first. *)
Theorem put_message_idempotent (id : Z) (text : string) (db : Db) :
  fits_int64 id = true ->
  let once := file_after (PUT_message id (Some text)) db in
  file_after (PUT_message id (Some text)) once = once
  /\ status (response_of (PUT_message id (Some text)) once) = 200
  /\ body (response_of (PUT_message id (Some text)) once)
     = body (response_of (PUT_message id (Some text)) db)
  /\ body (response_of (PUT_message id (Some text)) db) = Message id text.
Proof.
  intros fits once. subst once. unfold response_of, file_after.
  destruct (present_or_absent id db) as [present|absent].
  - rewrite (serve_PUT_present id db fits text present). cbn [fst snd].
    rewrite serve_PUT_present; [cbn [fst snd messages sqlite_sequence status body]| assumption |].
    + now rewrite set_text_twice.
    + unfold ids. cbn [messages]. now rewrite map_set_text_ids.
  - rewrite (serve_PUT_absent id db fits text absent). cbn [fst snd].
    rewrite serve_PUT_present; [cbn [fst snd messages sqlite_sequence status body]| assumption |].
    + now rewrite set_text_inserted.
    + unfold ids. cbn [messages]. apply (inserted_present (mkRow id text)).
Qed.

Lemma put_message_idempotent_witness :
  fits_int64 5 = true
  /\ file_after (PUT_message 5 (Some "x"%string))
       (file_after (PUT_message 5 (Some "x"%string)) hello_db)
     = file_after (PUT_message 5 (Some "x"%string)) hello_db.
Proof.
  split; [reflexivity|].
  apply (put_message_idempotent 5 "x" hello_db). reflexivity.
Defined.

(** C8. Distinct ids stay distinct through every request, answered with
    success or with an error; and no request changes the id of a row the
    table holds: the rows after it are the rows before under the same ids,
    or those with one row added, or those without the rows of one id. *)
Theorem ids_stay_unique (req : Request) (db : Db) :
  NoDup (ids db) ->
  NoDup (ids (file_after req db))
  /\ ids_kept (messages db) (messages (file_after req db)).
Proof.
  intros distinct. unfold ids_kept.
  destruct (serve_effect req db) as [|id text seq absent|id text|id];
    unfold ids; cbn [messages].
  - auto.
  - split.
    + now apply insert_row_ids.
    + right. left.
      destruct (insert_row_split (mkRow id text) (messages db))
        as (before & after & E1 & E2).
      exists before, after, (mkRow id text). auto.
  - rewrite map_set_text_ids. auto.
  - split.
    + rewrite delete_ids. now apply NoDup_filter.
    + right. right. now exists id.
Qed.

Lemma ids_stay_unique_witness :
  NoDup (ids hello_db)
  /\ NoDup (ids (file_after (POST_messages (Some "world"%string)) hello_db)).
Proof.
  assert (NoDup (ids hello_db)) as distinct.
  { simpl. constructor; [intros [] | constructor]. }
  split; [exact distinct|].
  apply (ids_stay_unique (POST_messages (Some "world"%string)) hello_db distinct).
Defined.



(** ** Routes amid the writes of other requests *)

(** Unfolds a route served amid other writes. *)
Ltac run_amid :=
  cbv [serve_amid route_amid get_conn_amid connect_amid first_found next_found];
  run_handler.

Lemma serve_amid_PATCH (writes : list (Db -> Db)) (id : Z) (text : string)
    (db : Db) :
  fits_int64 id = true ->
  serve_amid writes (PATCH_message id (Some text)) db
  = if count_id id (messages (first_found writes db)) =? 0
    then (message_not_found, first_found writes db)
    else
      let written :=
        mkDb (map (set_text text id) (messages (first_found writes db)))
             (sqlite_sequence (first_found writes db)) in
      (match filter (has_id id) (messages (next_found writes written)) with
       | [] => internal_server_error
       | row :: _ => mkHttp 200 (JsonObject (row_to_dict row))
       end, next_found writes written).
Proof.
  intros fits.
  destruct writes as [|w1 [|w2 rest]]; run_amid; rewrite fits;
    cbn [messages sqlite_sequence];
    (destruct (count_id id _ =? 0); [reflexivity|]);
    run_handler; cbn [messages sqlite_sequence];
    destruct (filter _ _); reflexivity.
Qed.



Lemma serve_amid_PUT (writes : list (Db -> Db)) (id : Z) (text : string)
    (db : Db) :
  fits_int64 id = true ->
  serve_amid writes (PUT_message id (Some text)) db
  = let absent := count_id id (messages (first_found writes db)) =? 0 in
    let written :=
      if absent
      then mkDb (insert_row (mkRow id text) (messages (first_found writes db)))
                (Z.max (sqlite_sequence (first_found writes db)) id)
      else mkDb (map (set_text text id) (messages (first_found writes db)))
                (sqlite_sequence (first_found writes db)) in
    (match filter (has_id id) (messages (next_found writes written)) with
     | [] => internal_server_error
     | row :: _ =>
         mkHttp (if absent then 201 else 200) (JsonObject (row_to_dict row))
     end, next_found writes written).
Proof.
  intros fits.
  destruct writes as [|w1 [|w2 rest]]; run_amid; rewrite fits;
    cbn [messages sqlite_sequence];
    destruct (count_id id _ =? 0) eqn:E;
    run_handler; cbn [messages sqlite_sequence];
    try (apply count_id_zero in E;
         rewrite (set_text_absent id text _ E), (existsb_absent id _ E));
    run_handler; cbn [messages sqlite_sequence]; clear E;
    destruct (filter _ _); reflexivity.
Qed.

Lemma serve_alone (req : Request) (db : Db) :
  serve_amid [] req db = serve req db.
Proof. destruct req as [|id|[text|]|id [text|]|id [text|]|id]; reflexivity. Qed.





(** The answer is read from the store: when another request has replaced
    the text between the commit and the read, PATCH with "world" answers
    with what the row holds, and served alone it answers as [serve] does. *)
Example patch_message_answers_from_the_store :
  fst (serve_amid [fun db => db; overwrite "bye"]
                  (PATCH_message 1 (Some "world"%string)) hello_db)
  = mkHttp 200 (Message 1 "bye")
  /\ fst (serve_amid [] (PATCH_message 1 (Some "world"%string)) hello_db)
     = mkHttp 200 (Message 1 "world").
Proof. split; vm_compute; reflexivity. Qed.





(** ** The routes, case by case *)

Lemma serve_POST_unread (db : Db) (text : string) (new : Z) :
  next_rowid db = Some new -> fits_int64 new = false ->
  serve (POST_messages (Some text)) db
  = (internal_server_error,
     mkDb (insert_row (mkRow new text) (messages db)) new).
Proof. intros next unfit. run_handler. now rewrite next, unfit. Qed.

Lemma serve_answers (req : Request) (db : Db) :
  answers db req (response_of req db) (file_after req db).
Proof.
  unfold response_of, file_after.
  destruct req as [|id|[text|]|id [text|]|id [text|]|id];
    try (constructor; fail).
  - (* GET by id *)
    destruct (fits_int64 id) eqn:fits.
    + rewrite serve_GET_message by assumption. cbn [fst snd].
      destruct (filter (has_id id) (messages db)) as [|row rest] eqn:E.
      * now apply ans_get_404.
      * now apply (ans_get db id row rest).
    + rewrite serve_GET_overflow by assumption. now apply ans_get_500.
  - (* POST *)
    destruct (next_rowid db) as [new|] eqn:next.
    + destruct (fits_int64 new) eqn:fits.
      * rewrite (serve_POST db text new next fits). now apply ans_post.
      * rewrite (serve_POST_unread db text new next fits).
        now apply ans_post_unread.
    + rewrite serve_POST_full by assumption. now apply ans_post_full.
  - (* PUT *)
    destruct (fits_int64 id) eqn:fits.
    + destruct (present_or_absent id db) as [present|absent].
      * rewrite serve_PUT_present by assumption. now apply ans_put_updated.
      * rewrite serve_PUT_absent by assumption. now apply ans_put_created.
    + rewrite serve_PUT_overflow by assumption. now apply ans_put_500.
  - (* PATCH *)
    destruct (fits_int64 id) eqn:fits.
    + destruct (present_or_absent id db) as [present|absent].
      * rewrite serve_PATCH_present by assumption. now apply ans_patch_updated.
      * rewrite serve_PATCH_absent by assumption. now apply ans_patch_404.
    + rewrite serve_PATCH_overflow by assumption. now apply ans_patch_500.
  - (* DELETE *)
    destruct (fits_int64 id) eqn:fits.
    + destruct (present_or_absent id db) as [present|absent].
      * rewrite serve_DELETE_present by assumption. now apply ans_delete_done.
      * rewrite serve_DELETE_absent by assumption. now apply ans_delete_404.
    + rewrite serve_DELETE_overflow by assumption. now apply ans_delete_500.
Qed.

(** Case analysis on the answer to a request. *)
Ltac by_answer req db :=
  let resp := fresh "resp" in
  let db' := fresh "db'" in
  let H := fresh "H" in
  generalize (serve_answers req db);
  generalize (response_of req db) (file_after req db);
  intros resp db' H; inversion H; subst; clear H.


(** ** Further properties of the handlers *)

Lemma filter_other_set_text (id other : Z) (text : string) (rows : list Row) :
  other <> id ->
  filter (has_id other) (map (set_text text id) rows)
  = filter (has_id other) rows.
Proof.
  intros differ. induction rows as [|row rows IH]; simpl; [reflexivity|].
  rewrite IH. unfold set_text. destruct (has_id id row) eqn:E; [|reflexivity].
  apply has_id_true in E. unfold has_id. simpl. rewrite E.
  now destruct (Z.eqb_spec id other); [congruence|].
Qed.

Lemma filter_other_deleted (id other : Z) (rows : list Row) :
  other <> id ->
  filter (has_id other) (filter (fun row => negb (has_id id row)) rows)
  = filter (has_id other) rows.
Proof.
  intros differ. induction rows as [|row rows IH]; simpl; [reflexivity|].
  destruct (has_id id row) eqn:E; simpl; rewrite IH; [|reflexivity].
  apply has_id_true in E. unfold has_id. rewrite E.
  now destruct (Z.eqb_spec id other); [congruence|].
Qed.

Lemma filter_other_insert (other : Z) (new : Row) (rows : list Row) :
  other <> row_id new ->
  filter (has_id other) (insert_row new rows) = filter (has_id other) rows.
Proof.
  intros differ.
  destruct (insert_row_split new rows) as (before & after & -> & ->).
  rewrite !filter_app. simpl. unfold has_id at 2.
  now destruct (Z.eqb_spec (row_id new) other); [congruence|].
Qed.

(** GET by id reads the rows of that id and nothing else of the file. *)
Lemma GET_reads_rows (id : Z) (db1 db2 : Db) :
  filter (has_id id) (messages db1) = filter (has_id id) (messages db2) ->
  response_of (GET_message id) db1 = response_of (GET_message id) db2.
Proof.
  intros same. unfold response_of. destruct (fits_int64 id) eqn:fits.
  - rewrite !serve_GET_message by assumption. cbn [fst]. now rewrite same.
  - now rewrite !serve_GET_overflow.
Qed.

(** X1. PATCH on an id the table holds replaces the text of that row, keeps
    the ids and the sequence, answers 200 with the new Message, and a GET of
    the id then returns the new text. *)
Theorem patch_message_updates (id : Z) (text : string) (db : Db) :
  fits_int64 id = true ->
  In id (ids db) ->
  serve (PATCH_message id (Some text)) db
  = (mkHttp 200 (Message id text),
     mkDb (map (set_text text id) (messages db)) (sqlite_sequence db))
  /\ ids (file_after (PATCH_message id (Some text)) db) = ids db
  /\ response_of (GET_message id) (file_after (PATCH_message id (Some text)) db)
     = mkHttp 200 (Message id text).
Proof.
  intros fits present. unfold file_after, response_of.
  rewrite (serve_PATCH_present id db fits text present). cbn [fst snd].
  split; [reflexivity|]. split.
  - unfold ids. cbn [messages]. apply map_set_text_ids.
  - rewrite serve_GET_message by assumption. cbn [fst messages].
    now destruct (select_after_update id db text present) as [rest ->].
Qed.

Lemma patch_message_updates_witness :
  fits_int64 1 = true /\ In 1 (ids hello_db)
  /\ response_of (GET_message 1)
       (file_after (PATCH_message 1 (Some "world"%string)) hello_db)
     = mkHttp 200 (Message 1 "world").
Proof.
  assert (In 1 (ids hello_db)) as present by (simpl; now left).
  split; [reflexivity|]. split; [exact present|].
  apply (patch_message_updates 1 "world" hello_db eq_refl present).
Defined.

(** X2. On an id the table holds, PUT and PATCH are the same request: the
    same answer and the same file, with or without a text. *)
Theorem put_is_patch_on_existing (id : Z) (text : option string) (db : Db) :
  In id (ids db) ->
  serve (PUT_message id text) db = serve (PATCH_message id text) db.
Proof.
  intros present. destruct text as [text|]; [|reflexivity].
  destruct (fits_int64 id) eqn:fits.
  - now rewrite serve_PUT_present, serve_PATCH_present.
  - now rewrite serve_PUT_overflow, serve_PATCH_overflow.
Qed.

Lemma put_is_patch_on_existing_witness :
  In 1 (ids hello_db)
  /\ serve (PUT_message 1 (Some "world"%string)) hello_db
     = serve (PATCH_message 1 (Some "world"%string)) hello_db.
Proof.
  assert (In 1 (ids hello_db)) as present by (simpl; now left).
  split; [exact present|].
  apply (put_is_patch_on_existing 1 (Some "world"%string) hello_db present).
Defined.

(** X3. A PUT, PATCH or DELETE on one id changes nothing about any other
    id: GET of another id answers after the request what it answered
    before it. *)
Theorem writes_touch_one_id (id other : Z) (text : option string) (db : Db) :
  other <> id ->
  response_of (GET_message other) (file_after (PUT_message id text) db)
  = response_of (GET_message other) db
  /\ response_of (GET_message other) (file_after (PATCH_message id text) db)
     = response_of (GET_message other) db
  /\ response_of (GET_message other) (file_after (DELETE_message id) db)
     = response_of (GET_message other) db.
Proof.
  intros differ. repeat split; apply GET_reads_rows.
  - by_answer (PUT_message id text) db; cbn [messages]; try reflexivity.
    + now apply filter_other_insert.
    + now apply filter_other_set_text.
  - by_answer (PATCH_message id text) db; cbn [messages]; try reflexivity.
    now apply filter_other_set_text.
  - by_answer (DELETE_message id) db; cbn [messages]; try reflexivity.
    now apply filter_other_deleted.
Qed.

Lemma writes_touch_one_id_witness :
  1 <> 2
  /\ response_of (GET_message 1) (file_after (DELETE_message 2) hello_db)
     = response_of (GET_message 1) hello_db.
Proof.
  assert (1 <> 2) as differ by lia.
  split; [exact differ|].
  apply (writes_touch_one_id 2 1 None hello_db differ).
Defined.

Lemma row_to_dict_inj (row row' : Row) :
  row_to_dict row = row_to_dict row' -> row = row'.
Proof.
  destruct row, row'. unfold row_to_dict. simpl. intros H.
  injection H as -> ->. reflexivity.
Qed.

Lemma unique_row (row : Row) (rows : list Row) :
  NoDup (map row_id rows) -> In row rows ->
  filter (has_id (row_id row)) rows = [row].
Proof.
  induction rows as [|first rows IH]; simpl; [tauto|].
  intros distinct Hin. inversion distinct as [|? ? Hnot distinct']; subst.
  destruct Hin as [->|Hin].
  - unfold has_id at 1. rewrite Z.eqb_refl. f_equal. now apply absent_iff.
  - destruct (has_id (row_id row) first) eqn:E.
    + apply has_id_true in E. exfalso. apply Hnot. rewrite E. now apply in_map.
    + now apply IH.
Qed.

(** X4. GET /messages lists every row of the table once, and agrees with
    GET by id: when ids are distinct, a Message is in the list exactly when
    GET /messages/{id} answers 200 with it. *)
Theorem list_agrees_with_get (db : Db) :
  NoDup (ids db) ->
  exists listed,
    response_of GET_messages db = mkHttp 200 (JsonArray listed)
    /\ List.length listed = List.length (messages db)
    /\ forall id text,
         fits_int64 id = true ->
         (In (row_to_dict (mkRow id text)) listed
          <-> response_of (GET_message id) db = mkHttp 200 (Message id text)).
Proof.
  intros distinct. exists (map row_to_dict (messages db)).
  split; [reflexivity|]. split; [apply length_map|].
  intros id text fits. unfold response_of.
  rewrite serve_GET_message by assumption. cbn [fst]. split.
  - intros Hin. apply in_map_iff in Hin as (row & E & Hin).
    apply row_to_dict_inj in E. subst row.
    assert (U := unique_row (mkRow id text) _ distinct Hin).
    cbn [row_id] in U. now rewrite U.
  - destruct (filter (has_id id) (messages db)) as [|row rest] eqn:E;
      [discriminate|].
    intros H.
    assert (row_to_dict row = row_to_dict (mkRow id text)) as same
        by (unfold Message in H; congruence).
    apply row_to_dict_inj in same. subst row.
    apply in_map.
    assert (In (mkRow id text) (filter (has_id id) (messages db))) as Hin
        by (rewrite E; now left).
    now apply filter_In in Hin.
Qed.

Lemma list_agrees_with_get_witness :
  NoDup (ids hello_db)
  /\ exists listed,
       response_of GET_messages hello_db = mkHttp 200 (JsonArray listed)
       /\ List.length listed = List.length (messages hello_db)
       /\ forall id text,
            fits_int64 id = true ->
            (In (row_to_dict (mkRow id text)) listed
             <-> response_of (GET_message id) hello_db
                 = mkHttp 200 (Message id text)).
Proof.
  assert (NoDup (ids hello_db)) as distinct.
  { simpl. constructor; [intros [] | constructor]. }
  split; [exact distinct|].
  apply (list_agrees_with_get hello_db distinct).
Defined.

Lemma serve_all_cons (req : Request) (rest : list Request) (db : Db) :
  serve_all (req :: rest) db
  = (response_of req db :: fst (serve_all rest (file_after req db)),
     snd (serve_all rest (file_after req db))).
Proof.
  unfold response_of, file_after. simpl.
  destruct (serve req db) as [resp db1]. simpl.
  now destruct (serve_all rest db1).
Qed.

Lemma In_insert_row (row new : Row) (rows : list Row) :
  In row (insert_row new rows) <-> row = new \/ In row rows.
Proof.
  destruct (insert_row_split new rows) as (before & after & -> & ->).
  rewrite !in_app_iff. simpl. intuition congruence.
Qed.

Lemma length_insert_row (new : Row) (rows : list Row) :
  List.length (insert_row new rows) = S (List.length rows).
Proof.
  destruct (insert_row_split new rows) as (before & after & -> & ->).
  rewrite !length_app. simpl. lia.
Qed.

Lemma Forall_insert_row (P : Row -> Prop) (new : Row) (rows : list Row) :
  P new -> Forall P rows -> Forall P (insert_row new rows).
Proof.
  intros Hnew Hrows. apply Forall_forall. intros row Hin.
  apply In_insert_row in Hin as [->|Hin]; [assumption|].
  rewrite Forall_forall in Hrows. now apply Hrows.
Qed.

(** POST takes no row out of the table and changes none. *)
Lemma post_keeps_rows (text : option string) (row : Row) (db : Db) :
  In row (messages db) ->
  In row (messages (file_after (POST_messages text) db)).
Proof.
  intros Hin. by_answer (POST_messages text) db; cbn [messages];
    try assumption; apply In_insert_row; now right.
Qed.

Lemma posts_keep_rows (texts : list string) (row : Row) (db : Db) :
  In row (messages db) ->
  In row (messages
            (snd (serve_all (map (fun t => POST_messages (Some t)) texts) db))).
Proof.
  revert db. induction texts as [|text texts IH]; intros db Hin; [assumption|].
  cbn [map]. rewrite serve_all_cons. cbn [snd].
  apply IH. now apply post_keeps_rows.
Qed.

(** X5. After N POSTs that were all answered 201, GET /messages lists N
    entries more than before, and the Message each POST returned is among
    them. *)
Theorem creates_are_listed (texts : list string) (db : Db) :
  Forall (fun resp => status resp = 201)
         (fst (serve_all (map (fun t => POST_messages (Some t)) texts) db)) ->
  exists listed,
    response_of GET_messages
      (snd (serve_all (map (fun t => POST_messages (Some t)) texts) db))
    = mkHttp 200 (JsonArray listed)
    /\ List.length listed
       = (List.length (messages db) + List.length texts)%nat
    /\ Forall (fun resp => exists d, body resp = JsonObject d /\ In d listed)
         (fst (serve_all (map (fun t => POST_messages (Some t)) texts) db)).
Proof.
  intros created.
  exists (map row_to_dict
            (messages
               (snd (serve_all (map (fun t => POST_messages (Some t)) texts)
                               db)))).
  split; [reflexivity|]. rewrite length_map.
  revert db created. induction texts as [|text texts IH]; intros db.
  - simpl. intros _. split; [lia | constructor].
  - cbn [map]. rewrite serve_all_cons. cbn [fst snd].
    intros created. inversion created as [|? ? first later]; subst.
    destruct (IH _ later) as [len each]. clear IH created later.
    revert first len each.
    by_answer (POST_messages (Some text)) db; try discriminate.
    cbn [messages]. rewrite length_insert_row. intros _ len each.
    split; [simpl; lia|]. constructor; [|exact each].
    exists (row_to_dict (mkRow new text)). split; [reflexivity|].
    apply in_map. apply posts_keep_rows. cbn [messages].
    apply In_insert_row. now left.
Qed.

Lemma creates_are_listed_witness :
  Forall (fun resp => status resp = 201)
    (fst (serve_all (map (fun t => POST_messages (Some t))
                         ["hello"; "world"]%string) empty))
  /\ exists listed,
       response_of GET_messages
         (snd (serve_all (map (fun t => POST_messages (Some t))
                              ["hello"; "world"]%string) empty))
       = mkHttp 200 (JsonArray listed)
       /\ List.length listed
          = (List.length (messages empty)
             + List.length ["hello"; "world"]%string)%nat
       /\ Forall (fun resp => exists d, body resp = JsonObject d /\ In d listed)
            (fst (serve_all (map (fun t => POST_messages (Some t))
                                 ["hello"; "world"]%string) empty)).
Proof.
  assert (Forall (fun resp => status resp = 201)
            (fst (serve_all (map (fun t => POST_messages (Some t))
                                 ["hello"; "world"]%string) empty)))
    as created by (repeat constructor).
  split; [exact created|].
  apply (creates_are_listed ["hello"; "world"]%string empty created).
Defined.

Lemma next_rowid_above (db : Db) (new : Z) :
  next_rowid db = Some new -> sqlite_sequence db < new.
Proof.
  unfold next_rowid. destruct (_ || _); [discriminate|].
  intros H. injection H as <-. lia.
Qed.

(** On a consistent file the next rowid is the sequence plus one. *)
Lemma next_rowid_consistent (db : Db) :
  consistent db ->
  next_rowid db
  = if sqlite_sequence db =? MAX_INT then None
    else Some (sqlite_sequence db + 1).
Proof.
  intros [Hseq Hrows]. unfold next_rowid.
  destruct (Z.eqb_spec (sqlite_sequence db) MAX_INT) as [full|room];
    [reflexivity|]. cbn [orb].
  destruct (max_rowid (messages db)) as [m|] eqn:E.
  - destruct (max_rowid_attained _ _ E) as (row & Hin & <-).
    rewrite Forall_forall in Hrows. specialize (Hrows row Hin).
    destruct (Z.eqb_spec (row_id row) MAX_INT); [lia|]. f_equal. lia.
  - f_equal. lia.
Qed.

Lemma consistent_next_fits (db : Db) (new : Z) :
  consistent db -> next_rowid db = Some new ->
  new = sqlite_sequence db + 1 /\ fits_int64 new = true.
Proof.
  intros cons next. rewrite (next_rowid_consistent db cons) in next.
  destruct cons as [Hseq _].
  destruct (Z.eqb_spec (sqlite_sequence db) MAX_INT); [discriminate|].
  injection next as <-. split; [reflexivity|].
  apply fits_int64_bounds. unfold MIN_INT in *. lia.
Qed.

Lemma fits_int64_inv (n : Z) :
  fits_int64 n = true -> MIN_INT <= n <= MAX_INT.
Proof.
  unfold fits_int64. intros H. apply andb_prop in H as [lo hi].
  apply Z.leb_le in lo, hi. lia.
Qed.

(** The facts a [next_rowid] in the context gives. *)
Ltac next_above :=
  match goal with
  | H : next_rowid _ = Some _ |- _ => apply next_rowid_above in H
  end.

Ltac next_fits cons :=
  match goal with
  | H : next_rowid ?db = Some ?new |- _ =>
      let E := fresh "E" in
      let fits := fresh "fits" in
      destruct (consistent_next_fits db new cons H) as [E fits]
  end.

Lemma consistent_fresh : consistent (init_db None).
Proof.
  unfold consistent, init_db, empty, MAX_INT. simpl. split; [lia | constructor].
Qed.

Lemma consistent_step (req : Request) (db : Db) :
  consistent db -> consistent (file_after req db).
Proof.
  intros cons. assert (cons' := cons). destruct cons' as [Hseq Hrows].
  by_answer req db; try assumption; unfold consistent;
    cbn [messages sqlite_sequence].
  - (* POST *)
    next_fits cons. subst new.
    apply fits_int64_inv in fits. split; [lia|].
    apply Forall_insert_row; [cbn [row_id]; unfold MIN_INT in *; lia|].
    eapply Forall_impl; [|exact Hrows]. cbn beta. intros row. lia.
  - (* POST, the row not read back *)
    next_fits cons. congruence.
  - (* PUT, created *)
    match goal with H : fits_int64 _ = true |- _ =>
      apply fits_int64_inv in H end. split; [lia|].
    apply Forall_insert_row; [cbn [row_id]; lia|].
    eapply Forall_impl; [|exact Hrows]. cbn beta. intros row. lia.
  - (* PUT, updated *)
    split; [assumption|]. apply Forall_map.
    eapply Forall_impl; [|exact Hrows]. cbn beta. intros row.
    now rewrite set_text_id.
  - (* PATCH *)
    split; [assumption|]. apply Forall_map.
    eapply Forall_impl; [|exact Hrows]. cbn beta. intros row.
    now rewrite set_text_id.
  - (* DELETE *)
    split; [assumption|]. apply Forall_forall. intros row Hin.
    apply filter_In in Hin as [Hin _].
    rewrite Forall_forall in Hrows. now apply Hrows.
Qed.

(** X6. Requests keep the file consistent, whatever their answers: from a
    consistent file (the one a fresh start creates is), after any requests
    in any order every id of the table is a 64-bit integer and the sequence
    is at or above every id and within the 64-bit range. *)
Theorem consistent_kept (reqs : list Request) (db : Db) :
  consistent db -> consistent (snd (serve_all reqs db)).
Proof.
  revert db. induction reqs as [|req reqs IH]; intros db cons; [assumption|].
  rewrite serve_all_cons. cbn [snd]. apply IH. now apply consistent_step.
Qed.

Lemma consistent_kept_witness :
  consistent (init_db None)
  /\ consistent
       (snd (serve_all [PUT_message 5 (Some "x"%string);
                        POST_messages (Some "hello"%string);
                        DELETE_message 5]
                       (init_db None))).
Proof.
  assert (consistent (init_db None)) as cons.
  { unfold consistent, init_db, empty, MAX_INT. simpl.
    split; [lia | constructor]. }
  split; [exact cons|].
  apply (consistent_kept [PUT_message 5 (Some "x"%string);
                          POST_messages (Some "hello"%string);
                          DELETE_message 5] (init_db None) cons).
Defined.

(** X7. No request lowers the sequence: what AUTOINCREMENT has counted
    stays counted, also through DELETE and through failed requests. *)
Theorem sequence_never_decreases (req : Request) (db : Db) :
  sqlite_sequence db <= sqlite_sequence (file_after req db).
Proof.
  by_answer req db; cbn [sqlite_sequence]; try lia.
  - next_above. lia.
  - next_above. lia.
Qed.

Lemma sequence_kept_by_all (reqs : list Request) (db : Db) :
  sqlite_sequence db <= sqlite_sequence (snd (serve_all reqs db)).
Proof.
  revert db. induction reqs as [|req reqs IH]; intros db; [simpl; lia|].
  rewrite serve_all_cons. cbn [snd].
  etransitivity; [|apply IH]. by_answer req db; cbn [sqlite_sequence]; try lia.
  - next_above. lia.
  - next_above. lia.
Qed.

(** X8. An id that POST has assigned is not assigned again: whatever
    requests follow, deletions included, a later POST that succeeds
    returns a larger id. *)
Theorem assigned_ids_grow (db : Db) (reqs : list Request)
    (text text' : string) (id id' : Z) :
  response_of (POST_messages (Some text)) db = mkHttp 201 (Message id text) ->
  response_of (POST_messages (Some text'))
    (snd (serve_all reqs (file_after (POST_messages (Some text)) db)))
  = mkHttp 201 (Message id' text') ->
  id < id'.
Proof.
  assert (forall t new i, mkHttp 201 (Message new t) = mkHttp 201 (Message i t)
                          -> new = i) as same_id.
  { unfold Message, row_to_dict. cbn [row_id row_text]. congruence. }
  intros first.
  assert (sqlite_sequence (file_after (POST_messages (Some text)) db) = id)
    as counted.
  { revert first. by_answer (POST_messages (Some text)) db; try discriminate.
    intros E. apply same_id in E. now subst. }
  assert (mono := sequence_kept_by_all reqs
                    (file_after (POST_messages (Some text)) db)).
  rewrite counted in mono.
  generalize dependent (snd (serve_all reqs
                               (file_after (POST_messages (Some text)) db))).
  intros later mono. by_answer (POST_messages (Some text')) later;
    try discriminate.
  intros E. apply same_id in E. subst.
  next_above. lia.
Qed.

Lemma assigned_ids_grow_witness :
  response_of (POST_messages (Some "hello"%string)) empty
  = mkHttp 201 (Message 1 "hello")
  /\ response_of (POST_messages (Some "world"%string))
       (snd (serve_all [DELETE_message 1]
                       (file_after (POST_messages (Some "hello"%string)) empty)))
     = mkHttp 201 (Message 2 "world")
  /\ 1 < 2.
Proof.
  split; [reflexivity|]. split; [reflexivity|].
  apply (assigned_ids_grow empty [DELETE_message 1] "hello" "world" 1 2);
    reflexivity.
Defined.



(** X12. Served one at a time: on a consistent file whose sequence is not
    used up, a request that has the file to itself and whose path id is a
    64-bit integer is never answered 500. *)
Theorem no_internal_error (req : Request) (db : Db) :
  consistent db ->
  sqlite_sequence db < MAX_INT ->
  path_id_fits req = true ->
  status (response_of req db) <> 500.
Proof.
  intros cons room fits. revert fits.
  by_answer req db; cbn [path_id_fits status message_not_found unprocessable];
    try discriminate; try congruence; intros _.
  - next_fits cons. congruence.
  - match goal with H : next_rowid ?d = None |- _ =>
      rewrite (next_rowid_consistent d cons) in H;
      destruct (Z.eqb_spec (sqlite_sequence d) MAX_INT); [lia | discriminate]
    end.
Qed.

Lemma no_internal_error_witness :
  consistent hello_db
  /\ sqlite_sequence hello_db < MAX_INT
  /\ path_id_fits (DELETE_message 1) = true
  /\ status (response_of (DELETE_message 1) hello_db) <> 500.
Proof.
  assert (consistent hello_db) as cons.
  { unfold consistent, hello_db, MIN_INT, MAX_INT. simpl. split; [lia|].
    constructor; [simpl; lia | constructor]. }
  assert (sqlite_sequence hello_db < MAX_INT) as room
      by (unfold MAX_INT; simpl; lia).
  split; [exact cons|]. split; [exact room|]. split; [reflexivity|].
  apply (no_internal_error (DELETE_message 1) hello_db cons room).
  reflexivity.
Defined.

Lemma delete_inserted (id : Z) (text : string) (rows : list Row) :
  filter (has_id id) rows = [] ->
  filter (fun row => negb (has_id id row)) (insert_row (mkRow id text) rows)
  = rows.
Proof.
  intros absent.
  destruct (insert_row_split (mkRow id text) rows) as (before & after & E1 & E2).
  rewrite E2, filter_app. simpl. unfold has_id at 2. simpl.
  rewrite Z.eqb_refl. simpl. rewrite <- filter_app, <- E1.
  now apply delete_absent.
Qed.

(** X13. A PUT that creates a row and a DELETE of the same id give the
    rows back as they were (204, nothing else moved); the sequence keeps
    the id it has counted. *)
Theorem put_then_delete (id : Z) (text : string) (db : Db) :
  fits_int64 id = true ->
  ~ In id (ids db) ->
  serve (DELETE_message id) (file_after (PUT_message id (Some text)) db)
  = (mkHttp 204 NoBody,
     mkDb (messages db) (Z.max (sqlite_sequence db) id)).
Proof.
  intros fits absent. apply absent_iff in absent. unfold file_after.
  rewrite (serve_PUT_absent id db fits text absent). cbn [snd].
  rewrite serve_DELETE_present;
    [cbn [messages sqlite_sequence] | assumption |].
  - now rewrite delete_inserted.
  - unfold ids. cbn [messages]. apply (inserted_present (mkRow id text)).
Qed.

Lemma put_then_delete_witness :
  fits_int64 5 = true /\ ~ In 5 (ids hello_db)
  /\ serve (DELETE_message 5) (file_after (PUT_message 5 (Some "x"%string)) hello_db)
     = (mkHttp 204 NoBody,
        mkDb (messages hello_db) (Z.max (sqlite_sequence hello_db) 5)).
Proof.
  assert (~ In 5 (ids hello_db)) as absent
      by (simpl; intros [H|[]]; discriminate).
  split; [reflexivity|]. split; [exact absent|].
  apply (put_then_delete 5 "x" hello_db eq_refl absent).
Defined.

(** X10. Served one at a time, the handlers never reach the errors they
    leave unguarded: they subscript the row they read back without testing
    it for [None], and PUT inserts without testing the key, yet a request
    that has the file to itself, on any file, ends in no [TypeError] and no
    [IntegrityError]. What its handler raises is the 404 of a missing
    message, the [OverflowError] of an id that cannot be bound, or the
    [OperationalError] of a used-up sequence. *)
Theorem handlers_raise_only (req : Request) (db : Db) :
  exception_of req db <> Some TypeError
  /\ exception_of req db <> Some IntegrityError
  /\ In (exception_of req db)
        [None; Some (HTTPException 404 "Message not found");
         Some OverflowError; Some OperationalError].
Proof.
  assert (forall e : option Exn,
             In e [None; Some (HTTPException 404 "Message not found");
                   Some OverflowError; Some OperationalError] ->
             e <> Some TypeError /\ e <> Some IntegrityError
             /\ In e [None; Some (HTTPException 404 "Message not found");
                      Some OverflowError; Some OperationalError]) as enough.
  { intros e Hin. repeat split; try assumption;
      intros ->; simpl in Hin; intuition discriminate. }
  apply enough. clear enough.
  destruct req as [|id|[text|]|id [text|]|id [text|]|id];
    unfold exception_of, raised; try (simpl; tauto); run_handler.
  - (* GET by id *)
    destruct (fits_int64 id); [|simpl; tauto].
    destruct (filter (has_id id) (messages db)); simpl; tauto.
  - (* POST *)
    destruct (next_rowid db) as [new|] eqn:next; [|simpl; tauto].
    destruct (fits_int64 new); [|simpl; tauto].
    cbv [messages]. fold (messages db).
    rewrite (filter_insert_row new text _ (next_rowid_fresh db new next)).
    simpl. tauto.
  - (* PUT *)
    destruct (fits_int64 id) eqn:fits; [|simpl; tauto].
    cbv [messages sqlite_sequence].
    fold (messages db). fold (sqlite_sequence db).
    destruct (present_or_absent id db) as [present|absent].
    + rewrite (present_count id db present).
      destruct (select_after_update id db text present) as [rest ->].
      simpl. tauto.
    + rewrite (proj2 (count_id_zero id _) absent).
      rewrite (set_text_absent id text _ absent).
      rewrite (existsb_absent id _ absent).
      rewrite (filter_insert_row id text _ absent). simpl. tauto.
  - (* PATCH *)
    destruct (fits_int64 id) eqn:fits; [|simpl; tauto].
    cbv [messages sqlite_sequence].
    fold (messages db). fold (sqlite_sequence db).
    destruct (present_or_absent id db) as [present|absent].
    + rewrite (present_count id db present).
      destruct (select_after_update id db text present) as [rest ->].
      simpl. tauto.
    + rewrite (proj2 (count_id_zero id _) absent). simpl. tauto.
  - (* DELETE *)
    destruct (fits_int64 id) eqn:fits; [|simpl; tauto].
    destruct (count_id id (messages db) =? 0); simpl; tauto.
Qed.

Lemma delete_updated (id : Z) (text : string) (rows : list Row) :
  filter (fun row => negb (has_id id row)) (map (set_text text id) rows)
  = filter (fun row => negb (has_id id row)) rows.
Proof.
  induction rows as [|row rows IH]; simpl; [reflexivity|].
  rewrite IH. unfold set_text. destruct (has_id id row) eqn:E.
  - unfold has_id in *. simpl. now rewrite E.
  - now rewrite E.
Qed.

Lemma deleting_updated (id : Z) (text : string) (db : Db) :
  fits_int64 id = true ->
  In id (ids db) ->
  deleting id (mkDb (map (set_text text id) (messages db)) (sqlite_sequence db))
  = mkDb (filter (fun row => negb (has_id id row)) (messages db))
         (sqlite_sequence db).
Proof.
  intros fits present. unfold deleting.
  rewrite serve_DELETE_present; [|assumption|].
  - cbn [snd messages sqlite_sequence]. now rewrite delete_updated.
  - unfold ids. cbn [messages]. now rewrite map_set_text_ids.
Qed.

(** X14. The one-at-a-time proviso is needed: the handlers commit before
    they read the row back, on a connection of their own. When another
    request deletes the message between the two, PATCH and PUT on an id the
    table held are answered 500 (for PATCH the [TypeError] of subscripting
    [None]), and the message is gone. *)
Theorem reread_can_miss (id : Z) (text : string) (db : Db) :
  fits_int64 id = true ->
  In id (ids db) ->
  serve_amid [fun db => db; deleting id] (PATCH_message id (Some text)) db
  = (internal_server_error,
     mkDb (filter (fun row => negb (has_id id row)) (messages db))
          (sqlite_sequence db))
  /\ serve_amid [fun db => db; deleting id] (PUT_message id (Some text)) db
     = (internal_server_error,
        mkDb (filter (fun row => negb (has_id id row)) (messages db))
             (sqlite_sequence db))
  /\ fst (get_conn_amid [fun db => db; deleting id] (patch_message id text) db)
     = Raise TypeError.
Proof.
  intros fits present. split; [|split].
  - rewrite serve_amid_PATCH by assumption. cbn [first_found next_found].
    rewrite (present_count id db present). cbv zeta.
    rewrite (deleting_updated id text db fits present). cbn [messages].
    now rewrite filter_deleted.
  - rewrite serve_amid_PUT by assumption. cbn [first_found next_found].
    rewrite (present_count id db present). cbv zeta.
    rewrite (deleting_updated id text db fits present). cbn [messages].
    now rewrite filter_deleted.
  - unfold get_conn_amid, connect_amid. run_handler. rewrite fits.
    cbn [messages sqlite_sequence].
    rewrite (present_count id db present). run_handler.
    rewrite (deleting_updated id text db fits present). cbn [messages].
    now rewrite filter_deleted.
Qed.

Lemma reread_can_miss_witness :
  fits_int64 1 = true /\ In 1 (ids hello_db)
  /\ fst (get_conn_amid [fun db => db; deleting 1]
                        (patch_message 1 "world") hello_db)
     = Raise TypeError.
Proof.
  assert (In 1 (ids hello_db)) as present by (simpl; now left).
  split; [reflexivity|]. split; [exact present|].
  apply (reread_can_miss 1 "world" hello_db eq_refl present).
Defined.
